(** * fix_nlp_format.py: a shallow embedding in Rocq

    The script [fix_nlp_format.py] repairs a Markdown file in which fenced
    Python code blocks were collapsed onto single lines with literal
    backslash-n escapes.  This file embeds its two functions,
    [fix_code_block_line] and [main], and proves the properties stated for
    them.

    Python [str] values are modelled as lists of 8-bit characters ([str]),
    read as the code points U+0000 to U+00FF;
    the Python string methods the script uses ([in], [split], [replace],
    [strip], [rstrip], [startswith], [find], slicing, [readlines]) are
    written out below with the semantics CPython gives them. *)

From Stdlib Require Import Ascii String.
From Stdlib Require Import List Bool Arith Lia ZArith.
Import ListNotations.
Open Scope list_scope.

(* ------------------------------------------------------------------ *)
(** ** Python strings *)

Definition str := list ascii.

(** A Rocq string literal as a Python string. *)
Definition s (x : string) : str := list_ascii_of_string x.

(** Characters that cannot be written inside a Rocq string literal. *)
Definition NL : ascii := "010"%char.     (* line feed *)
Definition DQ : ascii := "034"%char.     (* double quote *)
Definition BS : ascii := "092"%char.     (* backslash *)
Definition CR : ascii := "013"%char.     (* carriage return *)
Definition n_chr : ascii := "110"%char.  (* the letter n *)

(** r'\n' : backslash followed by the letter n. *)
Definition lit_bs_n : str := [BS; n_chr].
(** r'\\n' : two backslashes followed by the letter n. *)
Definition lit_bs_bs_n : str := [BS; BS; n_chr].
(** The escaped double quote: backslash followed by a double quote. *)
Definition lit_bs_dq : str := [BS; DQ].
(** '```python' and '```'. *)
Definition fence_python : str := s "```python".
Definition fence : str := s "```".

Definition str_eqb (a b : str) : bool :=
  if list_eq_dec ascii_dec a b then true else false.

(** [s.startswith(p)] *)
Fixpoint startswith (p x : str) : bool :=
  match p, x with
  | [], _ => true
  | c :: p', d :: x' => Ascii.eqb c d && startswith p' x'
  | _ :: _, [] => false
  end.

(** [p in x] *)
Fixpoint contains (p x : str) : bool :=
  startswith p x ||
  match x with
  | [] => false
  | _ :: x' => contains p x'
  end.

(** [x.find(p)]: index of the first occurrence, -1 when there is none. *)
Fixpoint find_from (p x : str) (i : Z) : Z :=
  if startswith p x then i
  else match x with
       | [] => (-1)%Z
       | _ :: x' => find_from p x' (i + 1)%Z
       end.
Definition find (p x : str) : Z := find_from p x 0%Z.

(** [x.split(sep)] for a non-empty [sep]: scanned left to right, the
    occurrences of [sep] are cut out without overlapping; [skip] counts the
    characters of an occurrence still to be dropped. *)
Fixpoint split_go (sep : str) (skip : nat) (x : str) : list str :=
  match x with
  | [] => [[]]
  | c :: x' =>
      match skip with
      | S k => split_go sep k x'
      | O =>
          if startswith sep x then [] :: split_go sep (pred (length sep)) x'
          else match split_go sep 0 x' with
               | part :: parts => (c :: part) :: parts
               | [] => [[c]]
               end
      end
  end.
Definition split (x sep : str) : list str := split_go sep 0 x.

(** [x.replace(old, new)] for a non-empty [old], left to right and without
    overlapping. *)
Fixpoint replace_go (old new : str) (skip : nat) (x : str) : str :=
  match x with
  | [] => []
  | c :: x' =>
      match skip with
      | S k => replace_go old new k x'
      | O =>
          if startswith old x then new ++ replace_go old new (pred (length old)) x'
          else c :: replace_go old new 0 x'
      end
  end.
Definition replace (x old new : str) : str := replace_go old new 0 x.

(** [str.isspace] on the characters U+0000 to U+00FF the model's [ascii]
    covers: \t \n \v \f \r, the separators 0x1c-0x1f, the space, NEL
    (0x85) and the no-break space (0xa0). *)
Definition is_space (c : ascii) : bool :=
  let n := nat_of_ascii c in
  ((9 <=? n) && (n <=? 13)) || ((28 <=? n) && (n <=? 32))
  || (n =? 133) || (n =? 160).

Fixpoint lstrip (x : str) : str :=
  match x with
  | [] => []
  | c :: x' => if is_space c then lstrip x' else x
  end.
Definition rstrip (x : str) : str := rev (lstrip (rev x)).
Definition strip (x : str) : str := rstrip (lstrip x).

(** [f.readlines()] on the decoded text: each line keeps its '\n'. *)
Fixpoint readlines (x : str) : list str :=
  match x with
  | [] => []
  | c :: x' =>
      if Ascii.eqb c NL then [NL] :: readlines x'
      else match readlines x' with
           | [] => [[c]]
           | l :: ls => (c :: l) :: ls
           end
  end.

(** Universal newlines of text mode: '\r\n' and a lone '\r' read as '\n'. *)
Fixpoint universal_newlines (x : str) : str :=
  match x with
  | [] => []
  | c :: x' =>
      if Ascii.eqb c CR then
        match x' with
        | d :: x'' => if Ascii.eqb d NL then NL :: universal_newlines x''
                      else NL :: universal_newlines x'
        | [] => [NL]
        end
      else c :: universal_newlines x'
  end.

(* ------------------------------------------------------------------ *)
(** ** [fix_code_block_line] *)

(** The loop [for i, part in enumerate(parts)], [n] being [len(parts)]. *)
Fixpoint expand_parts (i n : nat) (parts : list str) : list str :=
  match parts with
  | [] => []
  | part :: parts' =>
      (match part with
       | _ :: _ =>
           let part1 := replace part lit_bs_bs_n [NL] in
           let part2 := replace part1 lit_bs_dq [DQ] in
           [part2 ++ [NL]]
       | [] => if i <? n - 1 then [[NL]] else []
       end) ++ expand_parts (S i) n parts'
  end.

Definition fix_code_block_line (line : str) : list str :=
  if negb (contains lit_bs_n line) then [line]
  else
    let parts := split line lit_bs_n in
    expand_parts 0 (length parts) parts.

(* ------------------------------------------------------------------ *)
(** ** The scan loop of [main] *)

(** The four guards of the [if]/[elif] chain of the loop body. *)
Definition opens_fence (line : str) : bool :=
  str_eqb (strip line) fence_python
  || startswith (fence_python ++ [NL]) (strip line).
Definition closes_fence (in_python_block : bool) (line : str) : bool :=
  startswith fence (strip line) && in_python_block.
Definition glued_fence (line : str) : bool :=
  contains fence_python line && (20 <? length line)
  && negb (str_eqb (strip line) fence_python).
Definition collapsed_line (in_python_block : bool) (line : str) : bool :=
  in_python_block && contains lit_bs_n line && (150 <? length line).

(** One iteration of [while i < len(lines)]: from [in_python_block] and
    [line], the new flag and what is appended to [result]. *)
Definition step (in_python_block : bool) (line : str) : bool * list str :=
  if opens_fence line then (true, [line])
  else if closes_fence in_python_block line then (false, [line])
  else if glued_fence line then
    let idx := find fence_python line in
    (* [idx >= 0] here, the marker being in [line] *)
    let pre := if (0 <? idx)%Z
               then [rstrip (firstn (Z.to_nat idx) line) ++ [NL]] else [] in
    let rest := skipn (Z.to_nat idx + 9) line in
    (true, pre ++ [fence_python ++ [NL]] ++ fix_code_block_line rest)
  else if collapsed_line in_python_block line then
    (in_python_block, fix_code_block_line line)
  else (in_python_block, [line]).

Fixpoint scan (in_python_block : bool) (result lines : list str)
  : bool * list str :=
  match lines with
  | [] => (in_python_block, result)
  | line :: lines' =>
      let '(b, out) := step in_python_block line in
      scan b (result ++ out) lines'
  end.

(** The list [result] built by [main] from [lines]. *)
Definition process (lines : list str) : list str := snd (scan false [] lines).

(** The text written back, from the text read. *)
Definition transform (text : str) : str :=
  concat (process (readlines (universal_newlines text))).


(** The two figures [main] prints: [len(lines)] and [len(result)], then
    [len(result) - len(lines)]. *)
Inductive report :=
| Processed (n_lines n_result : nat)
| Expansion (delta : Z).

Definition expansion (lines : list str) : Z :=
  (Z.of_nat (length (process lines)) - Z.of_nat (length lines))%Z.

(* ------------------------------------------------------------------ *)
(** ** [main] with its file system effects *)

(** The exceptions [open], [readlines] and [writelines] can raise on the
    target file; [DiskFullError] is the [OSError] of errno ENOSPC. *)
Inductive error :=
| FileNotFoundError
| IsADirectoryError
| PermissionError
| UnicodeDecodeError
| DiskFullError.

(** What is at the path docs/development/python/nlp/index.md. *)
Inductive entry :=
| NoEntry
| Directory
| RegularFile (bytes : list Byte.byte) (readable writable : bool).

(** What [main] touches: the target path, the free space of the disk and
    what has been printed. *)
Record world := mkWorld {
  target : entry;
  disk_free : nat;
  stdout : list report
}.

Section Main.

(** UTF-8 decoding (failing on invalid input) and encoding. *)
Variable decode : list Byte.byte -> option str.
Variable encode : str -> list Byte.byte.

(** [with open(path, 'r', encoding='utf-8') as f: lines = f.readlines()] *)
Definition read_lines (w : world) : (list str + error) :=
  match target w with
  | NoEntry => inr FileNotFoundError
  | Directory => inr IsADirectoryError
  | RegularFile bytes readable _ =>
      if negb readable then inr PermissionError
      else match decode bytes with
           | None => inr UnicodeDecodeError
           | Some text => inl (readlines (universal_newlines text))
           end
  end.

(** Truncate-and-write of [data] into a file that had [old] bytes: what
    fits on the disk is written; when not all of it fits, the file keeps
    the part that fits and the write raises. *)
Definition put (w : world) (old : nat) (readable writable : bool)
    (data : list Byte.byte) : (unit + error) * world :=
  let room := disk_free w + old in
  if length data <=? room then
    (inl tt, mkWorld (RegularFile data readable writable)
                     (room - length data) (stdout w))
  else
    (inr DiskFullError, mkWorld (RegularFile (firstn room data) readable writable)
                                0 (stdout w)).

(** [with open(path, 'w', encoding='utf-8') as f: f.writelines(result)] *)
Definition write_file (w : world) (data : list Byte.byte)
  : (unit + error) * world :=
  match target w with
  | NoEntry => put w 0 true true data
  | Directory => (inr IsADirectoryError, w)
  | RegularFile old readable writable =>
      if negb writable then (inr PermissionError, w)
      else put w (length old) readable writable data
  end.

(** [main()]: the read, the rewrite, the write, then the two prints; an
    exception stops the run with the world as the failing step left it. *)
Definition main (w : world) : (unit + error) * world :=
  match read_lines w with
  | inr e => (inr e, w)
  | inl lines =>
      let result := process lines in
      match write_file w (encode (concat result)) with
      | (inr e, w1) => (inr e, w1)
      | (inl _, w1) =>
          (inl tt, mkWorld (target w1) (disk_free w1)
                     (stdout w1 ++ [Processed (length lines) (length result);
                                    Expansion (expansion lines)]))
      end
  end.

End Main.

(* ------------------------------------------------------------------ *)
(** ** The expander as the spec describes it *)

(** The escaped-quote unescape applied to a fragment. *)
Definition unescape_quotes (part : str) : str := replace part lit_bs_dq [DQ].

(** What a fragment emits, [is_last] telling whether it is the final one. *)
Definition emit_part (is_last : bool) (part : str) : list str :=
  match part with
  | [] => if is_last then [] else [[NL]]
  | _ :: _ => [unescape_quotes part ++ [NL]]
  end.

Fixpoint expander_spec (parts : list str) : list str :=
  match parts with
  | [] => []
  | part :: parts' =>
      emit_part (match parts' with [] => true | _ => false end) part
      ++ expander_spec parts'
  end.

(** A string free of the literal backslash-n escape. *)
Definition clean (x : str) : bool := negb (contains lit_bs_n x).

(** ['\n'.join(parts)]: the fragments with a line feed between each two. *)
Fixpoint join_nl (parts : list str) : str :=
  match parts with
  | [] => []
  | [p] => p
  | p :: parts' => p ++ NL :: join_nl parts'
  end.

(* ------------------------------------------------------------------ *)
(** ** Concrete inputs *)

(** A Python fence glued to two collapsed code lines. *)
Definition glued_example : str := s "```pythondef foo():\n    return 1\n".

(** A fence-close line inside a block, with the escape, over 150 long. *)
Definition long_close_line : str := fence ++ lit_bs_n ++ repeat "a"%char 150.

(** A glued fence whose remainder mentions the marker again. *)
Definition twice_glued_doc : str :=
  s "```pythonx = 1\ny = '```python sample'" ++ [NL].

(** A short collapsed line inside a fence. *)
Definition short_collapsed_doc : str :=
  fence_python ++ [NL] ++ s "x = 1\ny = 2" ++ [NL] ++ fence ++ [NL].

Example ex_split : split (s "a\nb\n") lit_bs_n = [s "a"; s "b"; []].
Proof. reflexivity. Qed.
Example ex_fix : fix_code_block_line (s "a\\nb") = [s "a\" ++ [NL]; s "b" ++ [NL]].
Proof. reflexivity. Qed.
Example ex_step : step false (s "```pythondef foo():\n    return 1\n")
  = (true, [fence_python ++ [NL]; s "def foo():" ++ [NL]; s "    return 1" ++ [NL]]).
Proof. vm_compute. reflexivity. Qed.

(* ------------------------------------------------------------------ *)
(** ** Lemmas on the string operations *)

Lemma list_len_ind {A : Type} (P : list A -> Prop) :
  (forall x, (forall y, length y < length x -> P y) -> P x) -> forall x, P x.
Proof.
  intros H x.
  assert (G : forall k (y : list A), length y <= k -> P y).
  { induction k as [|k IHk]; intros y Hy; apply H; intros z Hz.
    - lia.
    - apply IHk; lia. }
  exact (G (length x) x (le_n _)).
Qed.

Lemma split_go_cons0 sep c x :
  split_go sep 0 (c :: x) =
  if startswith sep (c :: x) then [] :: split_go sep (pred (length sep)) x
  else match split_go sep 0 x with
       | part :: parts => (c :: part) :: parts
       | [] => [[c]]
       end.
Proof. reflexivity. Qed.

Lemma replace_go_cons0 old new c x :
  replace_go old new 0 (c :: x) =
  if startswith old (c :: x) then new ++ replace_go old new (pred (length old)) x
  else c :: replace_go old new 0 x.
Proof. reflexivity. Qed.

Lemma contains_cons p c x :
  contains p (c :: x) = startswith p (c :: x) || contains p x.
Proof. reflexivity. Qed.

Lemma startswith_app p a r :
  startswith p a = true -> startswith p (a ++ r) = true.
Proof.
  revert a; induction p as [|c p IH]; intros [|d a] H; simpl in *; auto.
  - discriminate.
  - apply andb_prop in H as [H1 H2]. rewrite H1. simpl. auto.
Qed.

Lemma startswith_In p x c :
  startswith p x = true -> In c p -> In c x.
Proof.
  revert x; induction p as [|d p IH]; intros [|e x] H Hin; simpl in *;
    try contradiction; try discriminate.
  apply andb_prop in H as [H1 H2]. apply Ascii.eqb_eq in H1. subst e.
  destruct Hin as [->|Hin]; [now left | right; eauto].
Qed.

Lemma split_go_nonempty sep k x : split_go sep k x <> [].
Proof.
  revert k; induction x as [|c x IH]; intros [|k]; simpl; try discriminate.
  - destruct (startswith sep (c :: x)); [discriminate|].
    destruct (split_go sep 0 x); discriminate.
  - apply IH.
Qed.

(** The first fragment of a split is a prefix of the string. *)
Lemma split_head_prefix sep x part parts :
  split_go sep 0 x = part :: parts -> exists r, x = part ++ r.
Proof.
  revert part parts; induction x as [|c x IH]; intros part parts H.
  - simpl in H. inversion H. now exists [].
  - rewrite split_go_cons0 in H.
    destruct (startswith sep (c :: x)).
    + inversion H; subst. now exists (c :: x).
    + destruct (split_go sep 0 x) as [|p ps] eqn:E.
      * inversion H; subst. now exists x.
      * injection H as <- <-. destruct (IH p ps eq_refl) as [r ->].
        now exists r.
Qed.

(** No fragment of [line.split(r'\n')] holds the separator. *)
Lemma split_parts_clean x :
  Forall (fun p => clean p = true) (split_go lit_bs_n 0 x)
  /\ Forall (fun p => clean p = true) (split_go lit_bs_n 1 x).
Proof.
  induction x as [|c x [IH0 IH1]].
  - split; repeat constructor.
  - split; [|exact IH0].
    rewrite split_go_cons0.
    destruct (startswith lit_bs_n (c :: x)) eqn:Hs.
    + constructor; [reflexivity | exact IH1].
    + destruct (split_go lit_bs_n 0 x) as [|p ps] eqn:E.
      * repeat constructor. unfold clean. simpl.
        rewrite andb_false_r. reflexivity.
      * inversion IH0 as [|? ? Hp Hps]; subst.
        constructor; [|exact Hps].
        destruct (split_head_prefix _ _ _ _ E) as [r Hr].
        unfold clean in *. rewrite contains_cons.
        apply negb_true_iff in Hp. rewrite Hp, orb_false_r.
        destruct (startswith lit_bs_n (c :: p)) eqn:Hcp; [|reflexivity].
        apply (startswith_app _ _ r) in Hcp.
        change ((c :: p) ++ r) with (c :: (p ++ r)) in Hcp.
        rewrite <- Hr in Hcp. rewrite Hs in Hcp. discriminate.
Qed.

Lemma split_two_parts x :
  contains lit_bs_n x = true -> 2 <= length (split_go lit_bs_n 0 x).
Proof.
  induction x as [|c x IH]; intros H; [discriminate|].
  rewrite split_go_cons0. rewrite contains_cons in H.
  destruct (startswith lit_bs_n (c :: x)).
  - simpl. pose proof (split_go_nonempty lit_bs_n 1 x) as Hn.
    destruct (split_go lit_bs_n 1 x); [contradiction|simpl; lia].
  - simpl in H. specialize (IH H).
    destruct (split_go lit_bs_n 0 x); simpl in *; lia.
Qed.

Lemma replace_go_absent old new x :
  contains old x = false -> replace_go old new 0 x = x.
Proof.
  induction x as [|c x IH]; intros H; [reflexivity|].
  rewrite contains_cons in H. apply orb_false_elim in H as [H1 H2].
  rewrite replace_go_cons0, H1, IH; auto.
Qed.

(** A string free of r'\n' is free of r'\\n'. *)
Lemma clean_no_bs_bs_n x :
  clean x = true -> contains lit_bs_bs_n x = false.
Proof.
  unfold clean. induction x as [|c x IH]; intros H; [reflexivity|].
  rewrite contains_cons in *. apply negb_true_iff, orb_false_elim in H as [H1 H2].
  rewrite IH by (now rewrite H2). rewrite orb_false_r.
  destruct (startswith lit_bs_bs_n (c :: x)) eqn:E; [|reflexivity].
  simpl in E. apply andb_prop in E as [_ E].
  destruct x as [|d x]; [discriminate|].
  rewrite contains_cons in H2. simpl in H2, E. rewrite E in H2. discriminate.
Qed.

Lemma expand_parts_spec parts i :
  Forall (fun p => clean p = true) parts ->
  expand_parts i (i + length parts) parts = expander_spec parts.
Proof.
  revert i; induction parts as [|p ps IH]; intros i H; [reflexivity|].
  inversion H as [|? ? Hp Hps]; subst.
  simpl length. rewrite Nat.add_succ_r. cbn [expand_parts expander_spec].
  rewrite <- Nat.add_succ_l, (IH (S i) Hps). f_equal.
  destruct p as [|c p].
  - destruct ps as [|q ps]; simpl.
    + rewrite Nat.add_0_r, Nat.sub_0_r, Nat.ltb_irrefl. reflexivity.
    + replace (i + S (length ps) - 0) with (S (i + length ps)) by lia.
      destruct (Nat.ltb_spec i (S (i + length ps))); [reflexivity | lia].
  - unfold replace. rewrite (replace_go_absent _ _ _ (clean_no_bs_bs_n _ Hp)).
    destruct ps; reflexivity.
Qed.

(** [fix_code_block_line] on a line holding the escape is the spec's
    fragment-by-fragment expansion of [line.split(r'\n')]. *)
Lemma fix_code_block_line_spec line :
  contains lit_bs_n line = true ->
  fix_code_block_line line = expander_spec (split line lit_bs_n).
Proof.
  intros H. unfold fix_code_block_line. rewrite H. simpl negb. cbv iota.
  change (length (split line lit_bs_n)) with (0 + length (split line lit_bs_n)).
  apply expand_parts_spec, split_parts_clean.
Qed.

Lemma unescape_quotes_one c : unescape_quotes [c] = [c].
Proof.
  unfold unescape_quotes, replace. rewrite replace_go_cons0.
  simpl. rewrite andb_false_r. reflexivity.
Qed.

Lemma unescape_quotes_cons2 c d x :
  unescape_quotes (c :: d :: x) =
  if Ascii.eqb BS c && Ascii.eqb DQ d then DQ :: unescape_quotes x
  else c :: unescape_quotes (d :: x).
Proof.
  unfold unescape_quotes, replace. rewrite replace_go_cons0.
  change (startswith lit_bs_dq (c :: d :: x))
    with (Ascii.eqb BS c && (Ascii.eqb DQ d && true)).
  rewrite andb_true_r. destruct (Ascii.eqb BS c && Ascii.eqb DQ d); reflexivity.
Qed.

(** A trailing line feed goes through the unescape untouched. *)
Lemma unescape_quotes_snoc_nl x :
  unescape_quotes (x ++ [NL]) = unescape_quotes x ++ [NL].
Proof.
  induction x as [x IH] using list_len_ind.
  destruct x as [|c [|d x']].
  - reflexivity.
  - change ([c] ++ [NL]) with [c; NL]. rewrite unescape_quotes_cons2,
      unescape_quotes_one, unescape_quotes_one.
    change (Ascii.eqb DQ NL) with false. rewrite andb_false_r. reflexivity.
  - change ((c :: d :: x') ++ [NL]) with (c :: d :: (x' ++ [NL])).
    rewrite !unescape_quotes_cons2.
    destruct (Ascii.eqb BS c && Ascii.eqb DQ d).
    + rewrite IH by (simpl; lia). reflexivity.
    + change (d :: x' ++ [NL]) with ((d :: x') ++ [NL]).
      rewrite IH by (simpl; lia). reflexivity.
Qed.

(** The unescape never makes a letter n the first character. *)
Lemma unescape_quotes_head_n x t :
  unescape_quotes x ++ [NL] = n_chr :: t -> exists t', x = n_chr :: t'.
Proof.
  destruct x as [|c [|d x']].
  - discriminate.
  - rewrite unescape_quotes_one. intros H. inversion H. eauto.
  - rewrite unescape_quotes_cons2.
    destruct (Ascii.eqb BS c && Ascii.eqb DQ d); intros H; inversion H; eauto.
Qed.

Lemma clean_cons c x :
  clean (c :: x) = negb (Ascii.eqb BS c && startswith [n_chr] x) && clean x.
Proof.
  unfold clean. rewrite contains_cons, negb_orb. reflexivity.
Qed.

(** An emitted fragment line is free of the escape. *)
Lemma clean_unescape_line x :
  clean x = true -> clean (unescape_quotes x ++ [NL]) = true.
Proof.
  induction x as [x IH] using list_len_ind. intros Hx.
  destruct x as [|c [|d x']].
  - reflexivity.
  - rewrite unescape_quotes_one. change ([c] ++ [NL]) with [c; NL].
    rewrite clean_cons. change (startswith [n_chr] [NL]) with false.
    rewrite andb_false_r. reflexivity.
  - pose proof Hx as Hx0.
    rewrite clean_cons in Hx. apply andb_prop in Hx as [Hc Hx].
    rewrite unescape_quotes_cons2.
    destruct (Ascii.eqb BS c && Ascii.eqb DQ d) eqn:Ecd.
    + change ((DQ :: unescape_quotes x') ++ [NL])
        with (DQ :: (unescape_quotes x' ++ [NL])).
      rewrite clean_cons. change (Ascii.eqb BS DQ) with false. simpl andb.
      apply IH; [simpl; lia|]. rewrite clean_cons in Hx.
      apply andb_prop in Hx as [_ Hx]. exact Hx.
    + change ((c :: unescape_quotes (d :: x')) ++ [NL])
        with (c :: (unescape_quotes (d :: x') ++ [NL])).
      rewrite clean_cons. apply andb_true_intro. split.
      * destruct (unescape_quotes (d :: x') ++ [NL]) as [|e u] eqn:Eu;
          [rewrite andb_false_r; reflexivity|].
        change (startswith [n_chr] (e :: u)) with (Ascii.eqb n_chr e && true).
        destruct (Ascii.eqb BS c) eqn:Ebc; [|reflexivity].
        destruct (Ascii.eqb n_chr e) eqn:Ene; [|reflexivity].
        apply Ascii.eqb_eq in Ene. subst e.
        destruct (unescape_quotes_head_n _ _ Eu) as [t' Ht].
        injection Ht as -> ->. discriminate Hc.
      * apply IH; [simpl; lia | exact Hx].
Qed.

Lemma emit_part_clean b p :
  clean p = true -> Forall (fun o => clean o = true) (emit_part b p).
Proof.
  intros Hp. destruct p as [|c p].
  - destruct b; repeat constructor.
  - constructor; [apply clean_unescape_line, Hp | constructor].
Qed.

Lemma expander_spec_clean parts :
  Forall (fun p => clean p = true) parts ->
  Forall (fun o => clean o = true) (expander_spec parts).
Proof.
  induction 1 as [|p ps Hp Hps IH]; [constructor|].
  simpl. apply Forall_app. split; [apply emit_part_clean, Hp | exact IH].
Qed.

Lemma expander_spec_snoc parts p :
  expander_spec (parts ++ [p]) = flat_map (emit_part false) parts ++ emit_part true p.
Proof.
  induction parts as [|q qs IH]; simpl; [apply app_nil_r|].
  rewrite IH, app_assoc. destruct (qs ++ [p]) eqn:E; [|reflexivity].
  destruct qs; discriminate.
Qed.

Lemma fix_code_block_line_nonempty line : fix_code_block_line line <> [].
Proof.
  destruct (contains lit_bs_n line) eqn:H.
  - rewrite (fix_code_block_line_spec _ H).
    pose proof (split_two_parts _ H) as Hl. unfold split.
    destruct (split_go lit_bs_n 0 line) as [|p [|q ps]]; simpl in Hl; [lia|lia|].
    simpl. destruct p; simpl; discriminate.
  - unfold fix_code_block_line. rewrite H. discriminate.
Qed.

(* ------------------------------------------------------------------ *)
(** ** Lemmas on the scan loop *)

Lemma scan_acc lines b acc :
  scan b acc lines = (fst (scan b [] lines), acc ++ snd (scan b [] lines)).
Proof.
  revert b acc; induction lines as [|l ls IH]; intros b acc.
  - simpl. rewrite app_nil_r. reflexivity.
  - simpl. destruct (step b l) as [b' out].
    rewrite (IH b' (acc ++ out)), (IH b' out). simpl.
    rewrite app_assoc. reflexivity.
Qed.

Lemma scan_app l1 l2 b acc :
  scan b acc (l1 ++ l2) = scan (fst (scan b acc l1)) (snd (scan b acc l1)) l2.
Proof.
  revert b acc; induction l1 as [|l ls IH]; intros b acc; [reflexivity|].
  simpl. destruct (step b l) as [b' out]. apply IH.
Qed.

Lemma step_output_nonempty b line : 1 <= length (snd (step b line)).
Proof.
  unfold step.
  destruct (opens_fence line); [simpl; lia|].
  destruct (closes_fence b line); [simpl; lia|].
  destruct (glued_fence line).
  - simpl. rewrite length_app. simpl. lia.
  - destruct (collapsed_line b line); [|simpl; lia].
    simpl. pose proof (fix_code_block_line_nonempty line).
    destruct (fix_code_block_line line); [contradiction | simpl; lia].
Qed.

Lemma scan_length b lines : length lines <= length (snd (scan b [] lines)).
Proof.
  revert b; induction lines as [|l ls IH]; intros b; [simpl; lia|].
  simpl. pose proof (step_output_nonempty b l) as Hs.
  destruct (step b l) as [b' out]. rewrite scan_acc. simpl.
  rewrite length_app. specialize (IH b'). simpl in Hs. lia.
Qed.

Lemma str_eqb_false a b : a <> b -> str_eqb a b = false.
Proof. unfold str_eqb. destruct (list_eq_dec ascii_dec a b); congruence. Qed.

Lemma startswith_refl p r : startswith p (p ++ r) = true.
Proof.
  induction p as [|c p IH]; [reflexivity|]. simpl.
  rewrite Ascii.eqb_refl. exact IH.
Qed.

Lemma contains_app_mid p a r : contains p (a ++ p ++ r) = true.
Proof.
  induction a as [|c a IH].
  - destruct p as [|d p]; [destruct r; reflexivity|].
    change ([] ++ (d :: p) ++ r) with (d :: (p ++ r)). rewrite contains_cons.
    change (d :: p ++ r) with ((d :: p) ++ r). rewrite startswith_refl. reflexivity.
  - change ((c :: a) ++ p ++ r) with (c :: (a ++ p ++ r)).
    rewrite contains_cons, IH, orb_true_r. reflexivity.
Qed.

Lemma existsb_In_nl x : existsb (Ascii.eqb NL) x = false -> ~ In NL x.
Proof.
  intros H Hin.
  assert (H' : existsb (Ascii.eqb NL) x = true).
  { apply existsb_exists. exists NL. split; [exact Hin | apply Ascii.eqb_refl]. }
  rewrite H in H'. discriminate.
Qed.

Lemma skipn_length_app {A : Type} (pre l : list A) k :
  skipn (length pre + k) (pre ++ l) = skipn k l.
Proof. induction pre as [|c pre IH]; simpl; auto. Qed.

Lemma firstn_length_app {A : Type} (pre l : list A) :
  firstn (length pre) (pre ++ l) = pre.
Proof. induction pre as [|c pre IH]; simpl; [reflexivity | now rewrite IH]. Qed.

(* ------------------------------------------------------------------ *)
(** ** The claims *)

(** C1: on a line holding the literal backslash-n escape,
    [fix_code_block_line] splits it on every occurrence of the escape and,
    fragment by fragment in order, emits a non-empty fragment with its
    escaped quotes unescaped and a line feed appended, an empty fragment
    that is not the last as a blank line, and nothing for an empty last
    fragment. *)
Theorem fix_code_block_line_expands (line : str) :
  contains lit_bs_n line = true ->
  fix_code_block_line line = expander_spec (split line lit_bs_n).
Proof. intros H. exact (fix_code_block_line_spec line H). Qed.

Lemma fix_code_block_line_expands_witness :
  fix_code_block_line (s "a\n\nb") = expander_spec (split (s "a\n\nb") lit_bs_n).
Proof. apply fix_code_block_line_expands. reflexivity. Defined.

(** C2 (counterexample): inside a block the glued fence line is taken by
    the fence-close rule: it passes unchanged and closes the block. *)
Lemma glued_fence_inside_block_closes :
  glued_fence glued_example = true /\ step true glued_example = (false, [glued_example]).
Proof. split; vm_compute; reflexivity. Qed.

Lemma opens_fence_false_of line :
  str_eqb (strip line) fence_python = false ->
  existsb (Ascii.eqb NL) (strip line) = false ->
  opens_fence line = false.
Proof.
  intros Hs Hnl. unfold opens_fence. rewrite Hs, orb_false_l.
  destruct (startswith (fence_python ++ [NL]) (strip line)) eqn:E; [|reflexivity].
  exfalso. apply (existsb_In_nl _ Hnl).
  apply (startswith_In _ _ _ E). apply in_or_app. right. now left.
Qed.

Lemma step_close_rule line :
  opens_fence line = false -> startswith fence (strip line) = true ->
  step true line = (false, [line]).
Proof.
  intros Ho Hf. unfold step. rewrite Ho. unfold closes_fence. rewrite Hf.
  reflexivity.
Qed.

(** C2 (amended): when the fence-close rule does not apply (state outside
    the block, or a stripped line not starting with three backticks) and
    the stripped line holds no newline character, a line containing the
    marker at its first occurrence after [pre], longer than 20 characters
    and whose stripped content is not the bare marker, becomes the trimmed
    prefix line (when [pre] is not empty), the marker line and the
    expansion of the remainder, and the state becomes inside-block.
    Inside a block, a line whose stripped content is not the bare marker,
    holds no newline and starts with three backticks passes unchanged and
    closes the block.  The glued example, outside a block, gives three
    terminated lines. *)
Theorem glued_fence_split :
  (forall b line pre rest,
     line = pre ++ fence_python ++ rest ->
     find fence_python line = Z.of_nat (length pre) ->
     20 < length line ->
     str_eqb (strip line) fence_python = false ->
     existsb (Ascii.eqb NL) (strip line) = false ->
     closes_fence b line = false ->
     step b line =
       (true, match pre with [] => [] | _ :: _ => [rstrip pre ++ [NL]] end
              ++ [fence_python ++ [NL]] ++ fix_code_block_line rest))
  /\ (forall line,
        str_eqb (strip line) fence_python = false ->
        existsb (Ascii.eqb NL) (strip line) = false ->
        startswith fence (strip line) = true ->
        step true line = (false, [line]))
  /\ step false glued_example =
       (true, [fence_python ++ [NL]; s "def foo():" ++ [NL];
               s "    return 1" ++ [NL]]).
Proof.
  split; [|split; [|vm_compute; reflexivity]].
  - intros b line pre rest Hl Hf Hlen Hs Hnl Hc.
    pose proof (opens_fence_false_of _ Hs Hnl) as Ho.
    assert (Hg : glued_fence line = true).
    { unfold glued_fence. rewrite Hs, Hl, contains_app_mid. rewrite <- Hl.
      apply Nat.ltb_lt in Hlen. rewrite Hlen. reflexivity. }
    unfold step. rewrite Ho, Hc, Hg, Hf, Nat2Z.id. f_equal.
    rewrite Hl, skipn_length_app. change (fence_python ++ rest) with
      (firstn 9 (fence_python ++ rest) ++ skipn 9 (fence_python ++ rest)).
    rewrite firstn_length_app. simpl skipn.
    destruct pre as [|c pre']; [reflexivity|].
    replace (0 <? Z.of_nat (length (c :: pre')))%Z with true
      by (symmetry; apply Z.ltb_lt; simpl length; lia).
    reflexivity.
  - intros line Hs Hnl Hf.
    exact (step_close_rule _ (opens_fence_false_of _ Hs Hnl) Hf).
Qed.

Lemma glued_fence_split_witness :
  step false glued_example =
    (true, [] ++ [fence_python ++ [NL]]
           ++ fix_code_block_line (s "def foo():\n    return 1\n")).
Proof.
  refine (proj1 glued_fence_split false glued_example [] _ eq_refl eq_refl _
                eq_refl eq_refl eq_refl).
  apply Nat.ltb_lt. reflexivity.
Defined.

(** C3 (counterexample): inside a block, a line of more than 150
    characters holding the escape but starting with three backticks is
    taken by the fence-close rule, not replaced by its expansion. *)
Lemma long_close_line_not_expanded :
  contains lit_bs_n long_close_line = true
  /\ 150 < length long_close_line
  /\ step true long_close_line = (false, [long_close_line])
  /\ fix_code_block_line long_close_line <> [long_close_line].
Proof.
  split; [reflexivity|]. split; [apply Nat.ltb_lt; reflexivity|].
  split; [vm_compute; reflexivity|]. vm_compute. discriminate.
Qed.

(** C3 (amended): inside a block, a line that none of the fence-open,
    fence-close and glued-fence rules takes, holding the escape and longer
    than 150 characters, is replaced by the expander's output and the state
    stays inside; a line that is not a fence-open line and whose stripped
    content starts with three backticks passes unchanged and closes the
    block; a line that none of the four rules takes passes through
    unchanged with no state change. *)
Theorem collapsed_line_expanded :
  (forall line,
     opens_fence line = false -> closes_fence true line = false ->
     glued_fence line = false -> contains lit_bs_n line = true ->
     150 < length line ->
     step true line = (true, fix_code_block_line line))
  /\ (forall line,
        opens_fence line = false -> startswith fence (strip line) = true ->
        step true line = (false, [line]))
  /\ (forall b line,
        opens_fence line = false -> closes_fence b line = false ->
        glued_fence line = false -> collapsed_line b line = false ->
        step b line = (b, [line])).
Proof.
  split; [|split].
  - intros line Ho Hc Hg Hb Hl. unfold step. rewrite Ho, Hc, Hg.
    unfold collapsed_line. rewrite Hb. apply Nat.ltb_lt in Hl. rewrite Hl.
    reflexivity.
  - exact step_close_rule.
  - intros b line Ho Hc Hg Hcl. unfold step. rewrite Ho, Hc, Hg, Hcl.
    reflexivity.
Qed.

Lemma collapsed_line_expanded_witness :
  step true (s "x = 1\ny = 2" ++ repeat "a"%char 150)
  = (true, fix_code_block_line (s "x = 1\ny = 2" ++ repeat "a"%char 150)).
Proof.
  refine (proj1 collapsed_line_expanded (s "x = 1\ny = 2" ++ repeat "a"%char 150)
            eq_refl eq_refl eq_refl eq_refl _).
  apply Nat.ltb_lt. reflexivity.
Defined.

(** C4 (counterexample): the glued example, the only line of a document,
    is processed outside any block and does not appear in the output. *)
Lemma glued_line_outside_rewritten :
  fst (scan false [] []) = false
  /\ existsb (str_eqb glued_example) (process ([] ++ [glued_example])) = false.
Proof. split; vm_compute; reflexivity. Qed.

(** C4 (amended): a line processed outside a block that is not a glued
    fence line (containing the marker, longer than 20 characters, stripped
    content not the bare marker) appears unchanged, as one output line,
    right after the output of the lines before it. *)
Theorem outside_line_unchanged pre line post :
  fst (scan false [] pre) = false ->
  glued_fence line = false ->
  exists out_post, process (pre ++ line :: post) = process pre ++ line :: out_post.
Proof.
  intros Hst Hg. unfold process. rewrite scan_app.
  destruct (scan false [] pre) as [b r] eqn:E. simpl in Hst |- *. subst b.
  assert (Hs : exists b', step false line = (b', [line])).
  { unfold step. destruct (opens_fence line); [eauto|].
    unfold closes_fence. rewrite andb_false_r, Hg.
    cbn [collapsed_line andb]. eauto. }
  destruct Hs as [b' Hs]. rewrite Hs, scan_acc. simpl.
  exists (snd (scan b' [] post)). rewrite <- app_assoc. reflexivity.
Qed.

Lemma outside_line_unchanged_witness :
  exists out_post, process ([] ++ s "plain prose" :: [])
                   = process [] ++ s "plain prose" :: out_post.
Proof. apply outside_line_unchanged; reflexivity. Defined.

(** C5 (counterexample): a second pass changes the output of the first
    (the marker in the remainder of a glued fence is split again), and a
    short collapsed line inside a fence keeps its escape after a pass. *)
Lemma transform_not_idempotent :
  transform (transform twice_glued_doc) <> transform twice_glued_doc
  /\ transform short_collapsed_doc = short_collapsed_doc
  /\ contains lit_bs_n (transform short_collapsed_doc) = true.
Proof.
  split; [|split; vm_compute; reflexivity].
  vm_compute. discriminate.
Qed.

(** C5 (amended): every line the expander emits for a line holding the
    escape is free of the escape; inside a block, every line the
    collapsed-line rule emits is free of it.  The transformation is not
    idempotent: a second pass over the output for the twice-glued document
    changes it.  The escape can remain inside a fence after a pass: the
    short collapsed document is its own output and still holds it. *)
Theorem expansion_leaves_no_escape :
  (forall line,
     contains lit_bs_n line = true ->
     Forall (fun o => contains lit_bs_n o = false) (fix_code_block_line line))
  /\ (forall line,
        opens_fence line = false -> closes_fence true line = false ->
        glued_fence line = false -> collapsed_line true line = true ->
        Forall (fun o => contains lit_bs_n o = false) (snd (step true line)))
  /\ transform (transform twice_glued_doc) <> transform twice_glued_doc
  /\ transform short_collapsed_doc = short_collapsed_doc
  /\ contains lit_bs_n (transform short_collapsed_doc) = true.
Proof.
  assert (Hfix : forall line, contains lit_bs_n line = true ->
            Forall (fun o => contains lit_bs_n o = false) (fix_code_block_line line)).
  { intros line H. rewrite (fix_code_block_line_spec _ H).
    pose proof (expander_spec_clean _ (proj1 (split_parts_clean line))) as Hc.
    unfold split. eapply Forall_impl; [|exact Hc].
    intros o Ho. unfold clean in Ho. now apply negb_true_iff in Ho. }
  split; [exact Hfix|]. split.
  - intros line Ho Hc Hg Hcl. unfold step. rewrite Ho, Hc, Hg, Hcl. simpl.
    apply Hfix. unfold collapsed_line in Hcl.
    apply andb_true_iff in Hcl as [Hcl _]. exact Hcl.
  - split; [vm_compute; discriminate|]. split; vm_compute; reflexivity.
Qed.

Lemma expansion_leaves_no_escape_witness :
  Forall (fun o => contains lit_bs_n o = false)
         (fix_code_block_line (s "x = 1\ny = 2\n")).
Proof. apply (proj1 expansion_leaves_no_escape). reflexivity. Defined.

(** C6 (code bug): the doubled-backslash-n sequence of [a\\nb] is not
    unescaped into a newline inside one line: the split on the escape has
    already cut it, leaving a line ending in a backslash and a second line. *)
Theorem fix_code_block_line_double_backslash_n :
  fix_code_block_line (s "a\\nb") = [s "a\" ++ [NL]; s "b" ++ [NL]]
  /\ fix_code_block_line (s "a\\nb") <> [s "a" ++ [NL] ++ s "b" ++ [NL]].
Proof. split; [reflexivity | vm_compute; discriminate]. Qed.

(** C7: a line without the escape, the empty one included, comes back
    unchanged as the only element. *)
Theorem fix_code_block_line_no_escape (line : str) :
  contains lit_bs_n line = false -> fix_code_block_line line = [line].
Proof. intros H. unfold fix_code_block_line. rewrite H. reflexivity. Qed.

Lemma fix_code_block_line_no_escape_witness : fix_code_block_line [] = [[]].
Proof. apply fix_code_block_line_no_escape. reflexivity. Defined.

(** C8: when opening, reading or decoding the file fails, [main] stops
    with that error and the world, the file included, is left as it was:
    nothing is written.  Every error [main] ends with is one raised by the
    read or by the write; the content of the file never causes one: when
    the read and the write succeed, so does the run. *)
Theorem main_read_failure_no_write :
  (forall decode encode w e,
     read_lines decode w = inr e ->
     main decode encode w = (inr e, w)
     /\ ((e = FileNotFoundError /\ target w = NoEntry)
         \/ (e = IsADirectoryError /\ target w = Directory)
         \/ (e = PermissionError /\ exists bytes wr, target w = RegularFile bytes false wr)
         \/ (e = UnicodeDecodeError
             /\ exists bytes wr, target w = RegularFile bytes true wr /\ decode bytes = None)))
  /\ (forall decode encode w e w',
        main decode encode w = (inr e, w') ->
        read_lines decode w = inr e
        \/ exists lines, read_lines decode w = inl lines
                         /\ fst (write_file w (encode (concat (process lines)))) = inr e)
  /\ (forall decode encode w lines,
        read_lines decode w = inl lines ->
        fst (write_file w (encode (concat (process lines)))) = inl tt ->
        fst (main decode encode w) = inl tt).
Proof.
  split; [|split].
  - intros decode encode w e H. unfold main. rewrite H. split; [reflexivity|].
    unfold read_lines in H. destruct (target w) as [| |bytes [|] wr] eqn:Et.
    + injection H as <-. now left.
    + injection H as <-. right. now left.
    + destruct (decode bytes) eqn:Ed; [discriminate|]. injection H as <-.
      right. right. right. split; [reflexivity|]. eauto.
    + injection H as <-. right. right. left. split; [reflexivity|]. eauto.
  - intros decode encode w e w' H. unfold main in H.
    destruct (read_lines decode w) as [lines|e0] eqn:Er.
    + right. exists lines. split; [reflexivity|].
      destruct (write_file w (encode (concat (process lines)))) as [[u|e1] w1].
      * discriminate.
      * injection H as <- _. reflexivity.
    + injection H as <- _. now left.
  - intros decode encode w lines Hr Hw. unfold main. rewrite Hr.
    destruct (write_file w (encode (concat (process lines)))) as [[u|e1] w1].
    + reflexivity.
    + discriminate.
Qed.

Lemma main_read_failure_no_write_witness :
  main (fun _ => None) (fun _ => []) (mkWorld NoEntry 0 [])
  = (inr FileNotFoundError, mkWorld NoEntry 0 []).
Proof.
  exact (proj1 (proj1 main_read_failure_no_write (fun _ => None) (fun _ => [])
                  (mkWorld NoEntry 0 []) FileNotFoundError eq_refl)).
Defined.

(** C9: the expander returns a non-empty list on a non-empty line; each
    iteration of the scan appends at least one line; the output has at
    least as many lines as the input, and the printed expansion is never
    negative. *)
Theorem output_never_shrinks :
  (forall line, line <> [] -> fix_code_block_line line <> [])
  /\ (forall b line, 1 <= length (snd (step b line)))
  /\ (forall lines, length lines <= length (process lines))
  /\ (forall lines, (0 <= expansion lines)%Z).
Proof.
  split; [intros line _; apply fix_code_block_line_nonempty|].
  split; [exact step_output_nonempty|].
  split; [intros lines; apply scan_length|].
  intros lines. unfold expansion. pose proof (scan_length false lines).
  unfold process. lia.
Qed.

Lemma output_never_shrinks_witness : fix_code_block_line (s "x") <> [].
Proof. apply (proj1 output_never_shrinks). discriminate. Defined.

(** C10 (counterexample): on [a\nb], the final fragment [b] is not empty,
    yet the last emitted line [b] plus one line feed does not end with two
    line feeds. *)
Lemma last_fragment_single_terminator :
  contains lit_bs_n (s "a\nb") = true
  /\ List.last (split (s "a\nb") lit_bs_n) [] <> []
  /\ ~ (exists y, List.last (fix_code_block_line (s "a\nb")) [] = y ++ [NL; NL]).
Proof.
  split; [reflexivity|]. split; [discriminate|].
  intros [y Hy]. change (List.last (fix_code_block_line (s "a\nb")) [])
    with (s "b" ++ [NL]) in Hy.
  destruct y as [|c [|d y]]; try discriminate.
  apply (f_equal (@length ascii)) in Hy. simpl in Hy. rewrite length_app in Hy.
  simpl in Hy. lia.
Qed.

Lemma unescape_quotes_nonempty c x : unescape_quotes (c :: x) <> [].
Proof.
  destruct x as [|d x]; [rewrite unescape_quotes_one; discriminate|].
  rewrite unescape_quotes_cons2. destruct (Ascii.eqb BS c && Ascii.eqb DQ d);
  discriminate.
Qed.

Lemma unescape_quotes_snoc_nl_inv x y :
  unescape_quotes x = y ++ [NL] -> exists z, x = z ++ [NL].
Proof.
  revert y. induction x as [x IH] using list_len_ind. intros y H.
  destruct x as [|c [|d x']].
  - destruct y; discriminate.
  - rewrite unescape_quotes_one in H. exists [].
    destruct y as [|e y]; simpl in H; [injection H as ->; reflexivity|].
    injection H as _ H. destruct y; discriminate.
  - rewrite unescape_quotes_cons2 in H.
    destruct (Ascii.eqb BS c && Ascii.eqb DQ d).
    + destruct y as [|e y].
      * simpl in H. injection H as H1 _. discriminate.
      * injection H as _ H. destruct (IH x' ltac:(simpl; lia) y H) as [z ->].
        exists (c :: d :: z). reflexivity.
    + destruct y as [|e y].
      * simpl in H. injection H as _ H. exfalso.
        exact (unescape_quotes_nonempty d x' H).
      * injection H as _ H. destruct (IH (d :: x') ltac:(simpl; lia) y H) as [z Hz].
        exists (c :: z). rewrite Hz. reflexivity.
Qed.

(** C10 (amended): when the line holds the escape and its final fragment
    is not empty, the last emitted line is that fragment, unescaped, with a
    line feed appended.  When the fragment itself ends with a line feed (as
    a line read from the file does), the last line ends with two line
    feeds; otherwise it does not, and ends with a single one. *)
Theorem last_fragment_double_terminator (line : str) :
  contains lit_bs_n line = true ->
  List.last (split line lit_bs_n) [] <> [] ->
  List.last (fix_code_block_line line) []
    = unescape_quotes (List.last (split line lit_bs_n) []) ++ [NL]
  /\ (forall q, List.last (split line lit_bs_n) [] = q ++ [NL] ->
        List.last (fix_code_block_line line) [] = unescape_quotes q ++ [NL; NL])
  /\ ((forall q, List.last (split line lit_bs_n) [] <> q ++ [NL]) ->
        ~ exists y, List.last (fix_code_block_line line) [] = y ++ [NL; NL]).
Proof.
  intros H Hp. rewrite (fix_code_block_line_spec _ H).
  pose proof (split_go_nonempty lit_bs_n 0 line) as Hn. unfold split in *.
  destruct (exists_last Hn) as (ps & p & Hps). rewrite Hps in Hp |- *.
  rewrite last_last in Hp |- *. rewrite expander_spec_snoc.
  replace (emit_part true p) with [unescape_quotes p ++ [NL]]
    by (destruct p; [contradiction|reflexivity]).
  rewrite last_last. split; [reflexivity|split].
  - intros q ->. rewrite unescape_quotes_snoc_nl, <- app_assoc. reflexivity.
  - intros Hq [y Hy]. change [NL; NL] with ([NL] ++ [NL]) in Hy.
    rewrite app_assoc in Hy. apply app_inj_tail in Hy as [Hy _].
    destruct (unescape_quotes_snoc_nl_inv _ _ Hy) as [z Hz].
    exact (Hq z Hz).
Qed.

Lemma last_fragment_double_terminator_witness :
  List.last (fix_code_block_line (s "a\nb" ++ [NL])) []
    = unescape_quotes (List.last (split (s "a\nb" ++ [NL]) lit_bs_n) []) ++ [NL]
  /\ (forall q, List.last (split (s "a\nb" ++ [NL]) lit_bs_n) [] = q ++ [NL] ->
        List.last (fix_code_block_line (s "a\nb" ++ [NL])) []
        = unescape_quotes q ++ [NL; NL])
  /\ ((forall q, List.last (split (s "a\nb" ++ [NL]) lit_bs_n) [] <> q ++ [NL]) ->
        ~ exists y, List.last (fix_code_block_line (s "a\nb" ++ [NL])) []
                    = y ++ [NL; NL]).
Proof.
  apply last_fragment_double_terminator; [reflexivity | vm_compute; discriminate].
Defined.

(* ------------------------------------------------------------------ *)
(** ** Further properties of the script *)

Lemma contains_app_l p a b : contains p a = true -> contains p (a ++ b) = true.
Proof.
  induction a as [|c a IH]; intros H.
  - destruct p; [destruct b; reflexivity | discriminate].
  - change ((c :: a) ++ b) with (c :: (a ++ b)). rewrite contains_cons in *.
    apply orb_true_iff in H as [H|H].
    + apply (startswith_app _ _ b) in H.
      change ((c :: a) ++ b) with (c :: (a ++ b)) in H. rewrite H. reflexivity.
    + rewrite IH by exact H. apply orb_true_r.
Qed.

Lemma contains_app_r p a b : contains p b = true -> contains p (a ++ b) = true.
Proof.
  induction a as [|c a IH]; intros H; [exact H|].
  change ((c :: a) ++ b) with (c :: (a ++ b)). rewrite contains_cons, IH by exact H.
  apply orb_true_r.
Qed.

Lemma startswith_app_prefix p q y :
  startswith (p ++ q) y = true -> startswith p y = true.
Proof.
  revert y; induction p as [|c p IH]; intros [|d y] H; simpl in *; auto.
  apply andb_prop in H as [H1 H2]. rewrite H1. simpl. auto.
Qed.

Lemma contains_of_startswith p x : startswith p x = true -> contains p x = true.
Proof. destruct x; simpl; intros H; rewrite H; reflexivity. Qed.

Lemma lstrip_suffix x : exists a, x = a ++ lstrip x.
Proof.
  induction x as [|c x [a Ha]]; [now exists []|]. simpl.
  destruct (is_space c); [exists (c :: a); simpl; congruence | now exists []].
Qed.

Lemma rstrip_prefix x : exists t, x = rstrip x ++ t.
Proof.
  destruct (lstrip_suffix (rev x)) as [a Ha]. exists (rev a).
  unfold rstrip. rewrite <- rev_app_distr, <- Ha, rev_involutive. reflexivity.
Qed.

(** The stripped line is a piece of the line. *)
Lemma strip_infix x : exists a t, x = a ++ strip x ++ t.
Proof.
  destruct (lstrip_suffix x) as [a Ha]. destruct (rstrip_prefix (lstrip x)) as [t Ht].
  exists a, t. unfold strip. rewrite <- Ht. exact Ha.
Qed.

Lemma contains_strip p x : contains p (strip x) = true -> contains p x = true.
Proof.
  intros H. destruct (strip_infix x) as (a & t & Hx). rewrite Hx.
  apply contains_app_r, contains_app_l, H.
Qed.

Lemma opens_fence_contains line :
  opens_fence line = true -> contains fence_python line = true.
Proof.
  unfold opens_fence. intros H. apply contains_strip.
  apply orb_true_iff in H as [H|H].
  - unfold str_eqb in H. destruct (list_eq_dec ascii_dec (strip line) fence_python)
      as [E|]; [|discriminate].
    rewrite E. exact (contains_of_startswith _ _ (startswith_refl fence_python [])).
  - apply contains_of_startswith, (startswith_app_prefix _ _ _ H).
Qed.

Lemma lstrip_all_space x : forallb is_space x = true -> lstrip x = [].
Proof.
  induction x as [|c x IH]; simpl; intros H; [reflexivity|].
  apply andb_prop in H as [H1 H2]. rewrite H1. auto.
Qed.

Lemma lstrip_snoc_space x c :
  is_space c = true ->
  lstrip (x ++ [c]) = if forallb is_space x then [] else lstrip x ++ [c].
Proof.
  intros Hc. induction x as [|d x IH]; simpl; [now rewrite Hc|].
  destruct (is_space d); simpl; auto.
Qed.

(** A trailing whitespace character, a line feed for one, does not change
    what [strip] returns. *)
Lemma strip_snoc_space x c : is_space c = true -> strip (x ++ [c]) = strip x.
Proof.
  intros Hc. unfold strip. rewrite (lstrip_snoc_space _ _ Hc).
  destruct (forallb is_space x) eqn:E.
  - rewrite (lstrip_all_space _ E). reflexivity.
  - unfold rstrip. rewrite rev_app_distr. simpl. rewrite Hc. reflexivity.
Qed.

Lemma In_strip c x : In c (strip x) -> In c x.
Proof.
  intros H. destruct (strip_infix x) as (a & t & Hx). rewrite Hx.
  apply in_or_app. right. apply in_or_app. now left.
Qed.

Lemma readlines_shape x l :
  In l (readlines x) ->
  l <> [] /\ exists body, ~ In NL body /\ (l = body ++ [NL] \/ l = body).
Proof.
  revert l; induction x as [|c x IH]; intros l Hl; [contradiction|]. simpl in Hl.
  destruct (Ascii.eqb c NL) eqn:Ec.
  - destruct Hl as [<-|Hl]; [|now apply IH].
    split; [discriminate|]. exists []. split; [intros []|now left].
  - assert (Hc : c <> NL) by (intros ->; rewrite Ascii.eqb_refl in Ec; discriminate).
    destruct (readlines x) as [|l0 ls] eqn:E.
    + destruct Hl as [<-|[]]. split; [discriminate|].
      exists [c]. split; [intros [H|[]]; congruence | now right].
    + destruct Hl as [<-|Hl]; [|apply IH; now right].
      destruct (IH l0 (or_introl eq_refl)) as [_ (body & Hb & Hl0)].
      split; [discriminate|]. exists (c :: body).
      split; [intros [H|H]; [congruence|contradiction]|].
      destruct Hl0 as [->| ->]; [now left | now right].
Qed.

Lemma scan_keeps_lines lines acc :
  Forall (fun l => contains fence_python l = false) lines ->
  scan false acc lines = (false, acc ++ lines).
Proof.
  revert acc; induction lines as [|l ls IH]; intros acc H.
  - simpl. now rewrite app_nil_r.
  - inversion H as [|? ? Hl Hls]; subst. simpl.
    assert (Ho : opens_fence l = false).
    { destruct (opens_fence l) eqn:E; [|reflexivity].
      rewrite (opens_fence_contains _ E) in Hl. discriminate. }
    unfold step. rewrite Ho. unfold closes_fence, glued_fence.
    rewrite andb_false_r, Hl. cbn [collapsed_line andb].
    rewrite IH by exact Hls. rewrite <- app_assoc. reflexivity.
Qed.

Lemma split_parts_avoid q x :
  contains q x = false ->
  Forall (fun p => contains q p = false) (split_go lit_bs_n 0 x)
  /\ Forall (fun p => contains q p = false) (split_go lit_bs_n 1 x).
Proof.
  induction x as [|c x IH]; intros Hx.
  - split; repeat constructor; exact Hx.
  - rewrite contains_cons in Hx. apply orb_false_elim in Hx as [Hs Hx].
    destruct (IH Hx) as [IH0 IH1]. split; [|exact IH0].
    rewrite split_go_cons0.
    destruct (startswith lit_bs_n (c :: x)).
    + constructor; [destruct q; [discriminate Hs|reflexivity] | exact IH1].
    + destruct (split_go lit_bs_n 0 x) as [|p ps] eqn:E.
      * constructor; [|constructor]. rewrite contains_cons.
        destruct (startswith q [c]) eqn:Eq; [|destruct q; [discriminate Hs|reflexivity]].
        apply (startswith_app _ _ x) in Eq. simpl in Eq. rewrite Eq in Hs. discriminate.
      * inversion IH0 as [|? ? Hp Hps]; subst. constructor; [|exact Hps].
        destruct (split_head_prefix _ _ _ _ E) as [r Hr].
        rewrite contains_cons, Hp, orb_false_r.
        destruct (startswith q (c :: p)) eqn:Eq; [|reflexivity].
        apply (startswith_app _ _ r) in Eq.
        change ((c :: p) ++ r) with (c :: (p ++ r)) in Eq. rewrite <- Hr, Hs in Eq.
        discriminate.
Qed.

Lemma join_split_replace x :
  join_nl (split_go lit_bs_n 0 x) = replace_go lit_bs_n [NL] 0 x
  /\ join_nl (split_go lit_bs_n 1 x) = replace_go lit_bs_n [NL] 1 x.
Proof.
  induction x as [|c x [IH0 IH1]]; [split; reflexivity|].
  split; [|exact IH0].
  rewrite split_go_cons0, replace_go_cons0.
  destruct (startswith lit_bs_n (c :: x)).
  - simpl pred. pose proof (split_go_nonempty lit_bs_n 1 x) as Hn.
    destruct (split_go lit_bs_n 1 x) as [|q qs]; [contradiction|].
    rewrite <- IH1. reflexivity.
  - pose proof (split_go_nonempty lit_bs_n 0 x) as Hn.
    destruct (split_go lit_bs_n 0 x) as [|p [|q qs]]; [contradiction| |];
      rewrite <- IH0; reflexivity.
Qed.

Lemma concat_expander_spec parts :
  parts <> [] ->
  Forall (fun p => contains lit_bs_dq p = false) parts ->
  concat (expander_spec parts)
  = join_nl parts ++ match List.last parts [] with [] => [] | _ => [NL] end.
Proof.
  induction parts as [|p ps IH]; intros Hne H; [contradiction|].
  inversion H as [|? ? Hp Hps]; subst.
  assert (Hq : p <> [] -> unescape_quotes p = p)
    by (intros _; apply replace_go_absent, Hp).
  destruct ps as [|q qs].
  - destruct p as [|c p]; [reflexivity|]. simpl. rewrite app_nil_r, Hq; [reflexivity|discriminate].
  - change (expander_spec (p :: q :: qs))
      with (emit_part false p ++ expander_spec (q :: qs)).
    rewrite concat_app, IH by (discriminate || exact Hps).
    change (join_nl (p :: q :: qs)) with (p ++ NL :: join_nl (q :: qs)).
    change (List.last (p :: q :: qs) []) with (List.last (q :: qs) []).
    destruct p as [|c p]; [reflexivity|].
    change (emit_part false (c :: p)) with [unescape_quotes (c :: p) ++ [NL]].
    rewrite Hq by discriminate. cbn [concat]. rewrite app_nil_r, <- !app_assoc.
    reflexivity.
Qed.

Lemma contains_fence_python_fence x :
  contains fence_python x = true -> contains fence x = true.
Proof.
  induction x as [|c x IH]; [discriminate|]. rewrite !contains_cons.
  intros H. apply orb_true_iff in H as [H|H].
  - change fence_python with (fence ++ s "python") in H.
    rewrite (startswith_app_prefix _ _ _ H). reflexivity.
  - rewrite IH by exact H. apply orb_true_r.
Qed.

Lemma readlines_concat_eq (text : str) : concat (readlines text) = text.
Proof.
  induction text as [|c x IH]; [reflexivity|]. simpl.
  destruct (Ascii.eqb c NL) eqn:E.
  - apply Ascii.eqb_eq in E. subst c. simpl. now rewrite IH.
  - destruct (readlines x) as [|l ls]; simpl in *; now rewrite <- IH.
Qed.

Lemma universal_newlines_id (text : str) :
  ~ In CR text -> universal_newlines text = text.
Proof.
  induction text as [|c x IH]; intros H; [reflexivity|]. simpl.
  destruct (Ascii.eqb c CR) eqn:Ec.
  - apply Ascii.eqb_eq in Ec. subst c. exfalso. apply H. now left.
  - rewrite IH; [reflexivity|]. intros Hx. apply H. now right.
Qed.

(** X1: [readlines] loses nothing: concatenating the lines it returns gives
    back the text read. *)
Theorem readlines_concat (text : str) : concat (readlines text) = text.
Proof. apply readlines_concat_eq. Qed.

(** X2: every line [readlines] hands to the loop is non-empty and holds a
    line feed at most as its last character, so its stripped content holds
    none: the stripped line never starts with the marker followed by a line
    feed, and the fence-open test reduces to its first disjunct. *)
Theorem readlines_line_strip_no_newline (text line : str) :
  In line (readlines text) ->
  line <> []
  /\ (exists body, ~ In NL body /\ (line = body ++ [NL] \/ line = body))
  /\ existsb (Ascii.eqb NL) (strip line) = false
  /\ startswith (fence_python ++ [NL]) (strip line) = false
  /\ opens_fence line = str_eqb (strip line) fence_python.
Proof.
  intros H. destruct (readlines_shape _ _ H) as [Hne (body & Hb & Hl)].
  assert (Hs : strip line = strip body)
    by (destruct Hl as [-> | ->]; [apply strip_snoc_space; reflexivity | reflexivity]).
  assert (Hnl : existsb (Ascii.eqb NL) (strip line) = false).
  { rewrite Hs. destruct (existsb (Ascii.eqb NL) (strip body)) eqn:E; [|reflexivity].
    apply existsb_exists in E as (c & Hc & Ec). apply Ascii.eqb_eq in Ec. subst c.
    exfalso. exact (Hb (In_strip _ _ Hc)). }
  assert (Hst : startswith (fence_python ++ [NL]) (strip line) = false).
  { destruct (startswith (fence_python ++ [NL]) (strip line)) eqn:E; [|reflexivity].
    exfalso. apply (existsb_In_nl _ Hnl).
    apply (startswith_In _ _ _ E). apply in_or_app. right. now left. }
  split; [exact Hne|]. split; [eauto|]. split; [exact Hnl|]. split; [exact Hst|].
  unfold opens_fence. rewrite Hst. apply orb_false_r.
Qed.

Lemma readlines_line_strip_no_newline_witness :
  s "abc" ++ [NL] <> []
  /\ (exists body, ~ In NL body /\ (s "abc" ++ [NL] = body ++ [NL] \/ s "abc" ++ [NL] = body))
  /\ existsb (Ascii.eqb NL) (strip (s "abc" ++ [NL])) = false
  /\ startswith (fence_python ++ [NL]) (strip (s "abc" ++ [NL])) = false
  /\ opens_fence (s "abc" ++ [NL]) = str_eqb (strip (s "abc" ++ [NL])) fence_python.
Proof.
  apply (readlines_line_strip_no_newline (s "abc" ++ [NL] ++ s "de")).
  simpl. left. reflexivity.
Defined.

(** X3: text mode reading leaves no carriage return, and text without one
    is read as it is. *)
Theorem universal_newlines_no_cr (text : str) :
  ~ In CR (universal_newlines text)
  /\ (~ In CR text -> universal_newlines text = text).
Proof.
  split.
  - induction text as [x IH] using list_len_ind.
    destruct x as [|c x]; [intros []|]. simpl.
    destruct (Ascii.eqb c CR) eqn:Ec.
    + destruct x as [|d x'].
      * intros [H|[]]. discriminate H.
      * destruct (Ascii.eqb d NL).
        -- intros [H|H]; [discriminate H|]. revert H. apply IH. simpl. lia.
        -- intros [H|H]; [discriminate H|]. revert H. apply IH. simpl. lia.
    + intros [H|H].
      * subst c. rewrite Ascii.eqb_refl in Ec. discriminate.
      * revert H. apply IH. simpl. lia.
  - apply universal_newlines_id.
Qed.

(** X4: a line holding no triple backtick never changes the fence state,
    and outside a block it is emitted unchanged. *)
Theorem step_no_backticks (b : bool) (line : str) :
  contains fence line = false ->
  fst (step b line) = b /\ (b = false -> snd (step b line) = [line]).
Proof.
  intros H.
  assert (Hp : contains fence_python line = false).
  { destruct (contains fence_python line) eqn:E; [|reflexivity].
    rewrite (contains_fence_python_fence _ E) in H. discriminate. }
  assert (Ho : opens_fence line = false).
  { destruct (opens_fence line) eqn:E; [|reflexivity].
    rewrite (opens_fence_contains _ E) in Hp. discriminate. }
  assert (Hc : closes_fence b line = false).
  { unfold closes_fence. destruct (startswith fence (strip line)) eqn:E; [|reflexivity].
    rewrite (contains_strip _ _ (contains_of_startswith _ _ E)) in H. discriminate. }
  unfold step. rewrite Ho, Hc. unfold glued_fence. rewrite Hp. cbn [andb].
  destruct (collapsed_line b line) eqn:Ecl; split; try reflexivity.
  intros ->. discriminate Ecl.
Qed.

Lemma step_no_backticks_witness :
  fst (step true (s "x = 1\ny = 2")) = true
  /\ (true = false -> snd (step true (s "x = 1\ny = 2")) = [s "x = 1\ny = 2"]).
Proof. apply step_no_backticks. reflexivity. Defined.

(** X5: a document in which the marker [```python] never occurs, and
    without carriage returns, is written back exactly as it was read, and
    the printed expansion is 0. *)
Theorem prose_document_unchanged (text : str) :
  contains fence_python text = false -> ~ In CR text ->
  transform text = text /\ expansion (readlines text) = 0%Z.
Proof.
  intros Hp Hcr.
  assert (Hl : Forall (fun l => contains fence_python l = false) (readlines text)).
  { apply Forall_forall. intros l Hin.
    destruct (contains fence_python l) eqn:E; [|reflexivity].
    apply in_split in Hin as (A & B & HAB).
    pose proof (readlines_concat_eq text) as Hc. rewrite HAB, concat_app in Hc.
    simpl in Hc. rewrite <- Hp, <- Hc. symmetry.
    apply contains_app_r, contains_app_l, E. }
  unfold transform, expansion, process.
  rewrite universal_newlines_id by exact Hcr.
  rewrite (scan_keeps_lines _ [] Hl). simpl. split.
  - apply readlines_concat_eq.
  - lia.
Qed.

Lemma prose_document_unchanged_witness :
  transform (s "Some prose." ++ [NL]) = s "Some prose." ++ [NL]
  /\ expansion (readlines (s "Some prose." ++ [NL])) = 0%Z.
Proof.
  apply prose_document_unchanged; [reflexivity|].
  simpl. intros H. repeat (destruct H as [H|H]; [discriminate H|]). exact H.
Defined.

(** X6: on a line holding the escape and no escaped quote, the text the
    expander emits is the line with every backslash-n turned into a line
    feed, followed by one more line feed unless the final fragment is
    empty (the line ends with the escape). *)
Theorem expander_text (line : str) :
  contains lit_bs_n line = true -> contains lit_bs_dq line = false ->
  concat (fix_code_block_line line)
  = replace line lit_bs_n [NL]
    ++ match List.last (split line lit_bs_n) [] with [] => [] | _ :: _ => [NL] end.
Proof.
  intros H Hq. rewrite (fix_code_block_line_spec _ H).
  unfold split, replace. rewrite <- (proj1 (join_split_replace line)).
  apply concat_expander_spec; [apply split_go_nonempty|].
  exact (proj1 (split_parts_avoid _ _ Hq)).
Qed.

Lemma expander_text_witness :
  concat (fix_code_block_line (s "x = 1\ny = 2"))
  = replace (s "x = 1\ny = 2") lit_bs_n [NL]
    ++ match List.last (split (s "x = 1\ny = 2") lit_bs_n) [] with
       | [] => [] | _ :: _ => [NL] end.
Proof. apply expander_text; reflexivity. Defined.

(** X7: on a line holding the escape, the expander emits one line per
    fragment of the split, except for an empty final fragment. *)
Theorem expander_line_count (line : str) :
  contains lit_bs_n line = true ->
  length (fix_code_block_line line)
  + match List.last (split line lit_bs_n) [] with [] => 1 | _ :: _ => 0 end
  = length (split line lit_bs_n).
Proof.
  intros H. rewrite (fix_code_block_line_spec _ H).
  destruct (exists_last (split_go_nonempty lit_bs_n 0 line)) as (ps & p & Hps).
  unfold split. rewrite Hps, expander_spec_snoc, last_last, !length_app.
  assert (Hf : length (flat_map (emit_part false) ps) = length ps).
  { clear Hps. induction ps as [|q qs IH]; [reflexivity|]. simpl. rewrite length_app, IH.
    destruct q; reflexivity. }
  rewrite Hf. destruct p; simpl; lia.
Qed.

Lemma expander_line_count_witness :
  length (fix_code_block_line (s "a\n\nb\n"))
  + match List.last (split (s "a\n\nb\n") lit_bs_n) [] with [] => 1 | _ :: _ => 0 end
  = length (split (s "a\n\nb\n") lit_bs_n).
Proof. apply expander_line_count. reflexivity. Defined.

(** X8: every line the expander emits for a line holding the escape ends
    with a line feed. *)
Theorem expander_lines_terminated (line : str) :
  contains lit_bs_n line = true ->
  Forall (fun o => exists y, o = y ++ [NL]) (fix_code_block_line line).
Proof.
  intros H. rewrite (fix_code_block_line_spec _ H).
  generalize (split line lit_bs_n). induction l as [|p ps IH]; [constructor|].
  simpl. apply Forall_app. split; [|exact IH].
  destruct p as [|c p].
  - destruct ps; [constructor | repeat constructor; now exists []].
  - repeat constructor. eauto.
Qed.

Lemma expander_lines_terminated_witness :
  Forall (fun o => exists y, o = y ++ [NL]) (fix_code_block_line (s "a\nb")).
Proof. apply expander_lines_terminated. reflexivity. Defined.


